(** * TodoList: the todo-list component of src/client/components/TodoList.tsx

    The component keeps two pieces of client state (the active filter tab and
    the list of statuses sent to the [getAll] query), reads the fetched todos
    from the query, and exposes handlers that issue two remote mutations
    (update status, delete).  Each [TodoItem] keeps a local [isChecked] flag.

    Handlers are embedded as functions from the values captured by the render
    they were created in to the sequence of calls they make ([Cmd]).  React
    (state setters, keyed child instances) and the RPC client (query cache,
    mutation callbacks) are external collaborators; the part of their
    behaviour the component relies on is written out in the section
    "Runtime" below. *)

From Stdlib Require Import ZArith List String Bool Lia.
Import ListNotations.
Local Open Scope Z_scope.

(** ** Data model *)

(** [Array<'completed' | 'pending'>] ranges over these two literals. *)
Inductive Status : Type :=
| completed
| pending.

(** [type Tab = 'completed' | 'pending' | 'all']: the two statuses, and
    ['all']. *)
Inductive Tab : Type :=
| status_tab (s : Status)
| all.

Coercion status_tab : Status >-> Tab.

Definition Status_eqb (a b : Status) : bool :=
  match a, b with
  | completed, completed | pending, pending => true
  | _, _ => false
  end.

Definition Tab_eqb (a b : Tab) : bool :=
  match a, b with
  | all, all => true
  | status_tab s, status_tab s' => Status_eqb s s'
  | _, _ => false
  end.

(** The string literal behind each value. *)
Definition Status_name (s : Status) : string :=
  match s with
  | completed => "completed"
  | pending => "pending"
  end.

Definition Tab_name (t : Tab) : string :=
  match t with
  | status_tab s => Status_name s
  | all => "all"
  end.

(** [const tabs: Tab[] = ['all', 'completed', 'pending']] *)
Definition tabs : list Tab := [all; status_tab completed; status_tab pending].

(** A todo as the [getAll] query returns it.  Identifiers are JS numbers
    issued by the backend; they are integers here. *)
Record Todo : Type := mkTodo {
  id : Z;
  body : string;
  status : Status
}.

(** The [todo] prop of [TodoItem]: [{ id; body; completed }]. *)
Module TodoItemProps.

Record todo : Type := mk {
  id : Z;
  body : string;
  completed : bool
}.

End TodoItemProps.

(** The two remote mutations with their inputs:
    [api.todoStatus.update] takes [{ todoId, status }] and
    [api.todo.delete] takes [{ id }]. *)
Inductive Mutation : Type :=
| todoStatus_update (todoId : Z) (status : Status)
| todo_delete (id : Z).

(** The calls a handler or callback of this file can make: the state setters
    of [TodoList], the state setter of the [TodoItem] instance with a given
    key, the [mutate] function of a mutation hook, and the [refetch] function
    of the [getAll] query. *)
Inductive Cmd : Type :=
| setActiveTab (type : Tab)
| setListStatus (l : list Status)
| setIsChecked (key : Z) (b : bool)
| mutate (m : Mutation)
| refetchGetAll.

(** ** Handlers of [TodoList] *)

(** [const { mutate: updateStatus } = api.todoStatus.update.useMutation(..)] *)
Definition updateStatus (todoId : Z) (status : Status) : Cmd :=
  mutate (todoStatus_update todoId status).

(** [const { mutate: deleteTodo } = api.todo.delete.useMutation(..)] *)
Definition deleteTodo (id : Z) : Cmd :=
  mutate (todo_delete id).

(** The callbacks given to a mutation hook.  A callback that is not given
    makes no call. *)
Record MutationOptions : Type := mkOptions {
  onSuccess : list Cmd;
  onError : list Cmd
}.

(** [{ onSuccess: () => refetchGetAll() }], for both hooks. *)
Definition updateStatus_options : MutationOptions :=
  {| onSuccess := [refetchGetAll]; onError := [] |}.

Definition deleteTodo_options : MutationOptions :=
  {| onSuccess := [refetchGetAll]; onError := [] |}.

Definition options_of (m : Mutation) : MutationOptions :=
  match m with
  | todoStatus_update _ _ => updateStatus_options
  | todo_delete _ => deleteTodo_options
  end.

Definition handleUpdateStatus (id : Z) (status : Status) : list Cmd :=
  [updateStatus id status].

(** [todos.find((todo) => todo.id === id)?.status ?? 'pending'] *)
Definition currentStatus (todos : list Todo) (i : Z) : Status :=
  match find (fun todo => id todo =? i) todos with
  | Some todo => status todo
  | None => pending
  end.

(** [currentStatus === 'pending' ? 'completed' : 'pending'] *)
Definition toggled (currentStatus : Status) : Status :=
  if Status_eqb currentStatus pending then completed else pending.

Definition handleToggleTodoStatus (todos : list Todo) (i : Z) : list Cmd :=
  handleUpdateStatus i (toggled (currentStatus todos i)).

Definition handleDeleteTodo (i : Z) : list Cmd :=
  [deleteTodo i].

(** [type === 'all' ? ['completed', 'pending'] : [type]]; in the second
    branch [type] is narrowed to a status. *)
Definition statusesOfTab (type : Tab) : list Status :=
  match type with
  | all => [completed; pending]
  | status_tab s => [s]
  end.

Definition handleClickTab (type : Tab) : list Cmd :=
  [setActiveTab type; setListStatus (statusesOfTab type)].

(** ** [TabsDemo] *)

(** [String.prototype.includes]: some suffix of [s] starts with [sub]. *)
Fixpoint includes (s sub : string) : bool :=
  prefix sub s ||
  match s with
  | EmptyString => false
  | String _ s' => includes s' sub
  end.

(** One rendered [Tabs.Trigger]. *)
Record Trigger : Type := mkTrigger {
  value : Tab;
  label : string;
  isActive : bool;
  onClick : list Cmd
}.

Definition TabsDemo (tabs : list Tab) (activeTab : Tab)
    (handleClickTab : Tab -> list Cmd) : list Trigger :=
  map (fun type =>
         {| value := type;
            label := Tab_name type;
            isActive := includes (Tab_name activeTab) (Tab_name type);
            onClick := handleClickTab type |})
      tabs.

(** ** [TodoItem] *)

(** [{ ...todo, completed: todo.status === 'completed' }] *)
Definition formatTodo (todo : Todo) : TodoItemProps.todo :=
  {| TodoItemProps.id := id todo;
     TodoItemProps.body := body todo;
     TodoItemProps.completed := Status_eqb (status todo) completed |}.

(** [handleCheckboxClick], in the [TodoItem] whose local state is
    [isChecked]; [handleToggleTodoStatus] is the prop received from
    [TodoList]. *)
Definition handleCheckboxClick (handleToggleTodoStatus : Z -> list Cmd)
    (isChecked : bool) (todo : TodoItemProps.todo) : list Cmd :=
  setIsChecked (TodoItemProps.id todo) (negb isChecked)
  :: handleToggleTodoStatus (TodoItemProps.id todo).

(** ** Backend *)

(** The input of the [getAll] query: [{ statuses }]. *)
Record GetAllInput : Type := mkInput {
  statuses : list Status
}.

(** Modelled from the spec: the [getAll] procedure of the todo router
    (src/server/api/routers/todo-router.ts, which is not among the sources).
    The spec has the component "fetch a list filtered by status", a todo
    being "a record with an identifier, text body, and status (pending or
    completed)": the answer is the stored todos whose status is one of the
    requested ones, in stored order. *)
Definition getAll (db : list Todo) (input : GetAllInput) : list Todo :=
  filter (fun todo => existsb (Status_eqb (status todo)) (statuses input)) db.

(** ** Runtime

    What React and the RPC client do with the component, as far as the
    component depends on it:
    - a state setter replaces the state it belongs to; the setters called by
      one handler take effect together, and the component renders again;
    - the query hook keeps the last answer per input and [data] is the answer
      kept for the input of the current render ([undefined], hence the
      default [[]], when there is none); [refetch] asks again for the input
      of the render that created it;
    - [mutate] sends the remote call; when the call settles the hook runs
      [onSuccess] or [onError];
    - children are matched by [key]: an instance that stays in the list keeps
      its local state, a new one starts from [useState(todo.completed)];
      local state is therefore kept per key. *)

(** The remote calls the code of the component asks for: a [mutate], or a
    [refetch] of the query.  The fetching the query hook does on its own
    (first render, new input) is not listed here; its answers arrive as
    [Answered] events below. *)
Inductive Request : Type :=
| call_mutation (m : Mutation)
| call_getAll (input : GetAllInput).

(** Two query inputs are the same cache entry when they list the same
    statuses in the same order. *)
Fixpoint statuses_eqb (k k' : list Status) : bool :=
  match k, k' with
  | [], [] => true
  | s :: k, s' :: k' => Status_eqb s s' && statuses_eqb k k'
  | _, _ => false
  end.

Record State : Type := mkState {
  activeTab : Tab;
  listStatus : list Status;
  (** the answer kept by the query hook for each input *)
  cache : list Status -> option (list Todo);
  (** [isChecked] of the mounted [TodoItem] with each key *)
  mounted : Z -> option bool
}.

(** [useState<Tab>('all')], [useState(['completed', 'pending'])], nothing
    fetched, nothing mounted. *)
Definition init : State :=
  {| activeTab := all;
     listStatus := [completed; pending];
     cache := fun _ => None;
     mounted := fun _ => None |}.

(** [api.todo.getAll.useQuery({ statuses: listStatus })] *)
Definition queryInput (st : State) : GetAllInput :=
  {| statuses := listStatus st |}.

(** [const { data: todos = [] } = ...] *)
Definition todos (st : State) : list Todo :=
  match cache st (statuses (queryInput st)) with
  | Some data => data
  | None => []
  end.

Definition with_activeTab (type : Tab) (st : State) : State :=
  {| activeTab := type; listStatus := listStatus st;
     cache := cache st; mounted := mounted st |}.

Definition with_listStatus (l : list Status) (st : State) : State :=
  {| activeTab := activeTab st; listStatus := l;
     cache := cache st; mounted := mounted st |}.

Definition with_cache (c : list Status -> option (list Todo)) (st : State)
    : State :=
  {| activeTab := activeTab st; listStatus := listStatus st;
     cache := c; mounted := mounted st |}.

Definition with_mounted (m : Z -> option bool) (st : State) : State :=
  {| activeTab := activeTab st; listStatus := listStatus st;
     cache := cache st; mounted := m |}.

(** One call.  [render] is the state of the render that created the handler:
    [refetch] asks for the input of that render.  A setter of an instance
    that is not mounted does nothing. *)
Definition exec (render : State) (c : Cmd) (st : State)
    : State * list Request :=
  match c with
  | setActiveTab type => (with_activeTab type st, [])
  | setListStatus l => (with_listStatus l st, [])
  | setIsChecked key b =>
      (with_mounted
         (fun k => if k =? key
                   then match mounted st k with
                        | Some _ => Some b
                        | None => None
                        end
                   else mounted st k) st, [])
  | mutate m => (st, [call_mutation m])
  | refetchGetAll => (st, [call_getAll (queryInput render)])
  end.

Fixpoint run (render : State) (cmds : list Cmd) (st : State)
    : State * list Request :=
  match cmds with
  | [] => (st, [])
  | c :: cmds =>
      let (st1, r1) := exec render c st in
      let (st2, r2) := run render cmds st1 in
      (st2, r1 ++ r2)
  end.

(** Matching the children of [<ul ref={parent}>] by [key={todo.id}]. *)
Definition reconcile (old : Z -> option bool) (todos : list Todo)
    : Z -> option bool :=
  fun key =>
    match find (fun todo => id todo =? key) todos with
    | Some todo =>
        Some match old key with
             | Some isChecked => isChecked
             | None => TodoItemProps.completed (formatTodo todo)
             end
    | None => None
    end.

Definition rerender (st : State) : State :=
  with_mounted (reconcile (mounted st) (todos st)) st.

(** What the component shows. *)
Record Item : Type := mkItem {
  todo : TodoItemProps.todo;
  isChecked : bool
}.

Record View : Type := mkView {
  triggers : list Trigger;
  items : list Item
}.

Definition TodoList (st : State) : View :=
  {| triggers := TabsDemo tabs (activeTab st) handleClickTab;
     items :=
       map (fun todo =>
              let formatTodo := formatTodo todo in
              {| todo := formatTodo;
                 isChecked :=
                   match mounted st (id todo) with
                   | Some isChecked => isChecked
                   | None => TodoItemProps.completed formatTodo
                   end |})
           (todos st) |}.

(** What can happen to the component: a click on a tab trigger, on the
    checkbox or on the delete button of an item, a remote mutation settling
    (with success or not), and the backend, holding [db], answering a
    [getAll] call. *)
Inductive Event : Type :=
| ClickTab (type : Tab)
| ClickCheckbox (key : Z)
| ClickDelete (key : Z)
| Settled (m : Mutation) (ok : bool)
| Answered (input : GetAllInput) (db : list Todo).

(** The handler or callback an event runs, taken from the current view.  A
    click on something that is not shown runs nothing. *)
Definition dispatch (st : State) (e : Event) : list Cmd :=
  match e with
  | ClickTab type =>
      match find (fun tr => Tab_eqb (value tr) type) (triggers (TodoList st))
      with
      | Some tr => onClick tr
      | None => []
      end
  | ClickCheckbox key =>
      match find (fun it => TodoItemProps.id (todo it) =? key)
                 (items (TodoList st))
      with
      | Some it =>
          handleCheckboxClick (handleToggleTodoStatus (todos st))
                              (isChecked it) (todo it)
      | None => []
      end
  | ClickDelete key =>
      match find (fun it => TodoItemProps.id (todo it) =? key)
                 (items (TodoList st))
      with
      | Some it => handleDeleteTodo (TodoItemProps.id (todo it))
      | None => []
      end
  | Settled m ok =>
      if ok then onSuccess (options_of m) else onError (options_of m)
  | Answered _ _ => []
  end.

(** The query hook storing an answer. *)
Definition store (input : GetAllInput) (data : list Todo) (st : State)
    : State :=
  with_cache (fun k => if statuses_eqb k (statuses input) then Some data
                       else cache st k) st.

Definition step (st : State) (e : Event) : State * list Request :=
  let st0 :=
    match e with
    | Answered input db => store input (getAll db input) st
    | _ => st
    end in
  let (st1, reqs) := run st (dispatch st e) st0 in
  (rerender st1, reqs).

Fixpoint steps (st : State) (es : list Event) : State :=
  match es with
  | [] => st
  | e :: es => steps (fst (step st e)) es
  end.

Inductive reachable : State -> Prop :=
| reachable_init : reachable init
| reachable_step st e : reachable st -> reachable (fst (step st e)).

(** ** Predicates used in the statements *)

Definition is_getAll (r : Request) : bool :=
  match r with
  | call_getAll _ => true
  | call_mutation _ => false
  end.

(** The filter state is coherent: the status list is not empty, holds only
    the two statuses, is [['completed', 'pending']] exactly on the ['all']
    tab and is the one-element list of the active tab on the other tabs. *)
Definition filter_invariant (st : State) : Prop :=
  listStatus st <> [] /\
  (forall s, In s (listStatus st) -> In s [completed; pending]) /\
  (listStatus st = [completed; pending] <-> activeTab st = all) /\
  (forall s, activeTab st = status_tab s -> listStatus st = [s]).

(** Every answer kept by the query hook is what the backend gives for the
    input it is kept under. *)
Definition cache_invariant (st : State) : Prop :=
  forall k data,
    cache st k = Some data -> exists db, data = getAll db {| statuses := k |}.

(** Only todos of the fetched list have a mounted [TodoItem]. *)
Definition mounted_invariant (st : State) : Prop :=
  forall key b,
    mounted st key = Some b ->
    exists t, find (fun todo => id todo =? key) (todos st) = Some t.

(** The store the backend held when it last answered the query with status
    list [k] in a run of events, if it answered it at all. *)
Fixpoint last_answer (es : list Event) (k : list Status)
    : option (list Todo) :=
  match es with
  | [] => None
  | e :: es =>
      match last_answer es k with
      | Some db => Some db
      | None =>
          match e with
          | Answered input db =>
              if statuses_eqb k (statuses input) then Some db else None
          | _ => None
          end
      end
  end.

(** The checked state with which the item with a given key is shown, if it
    is shown: it drives the checkbox, the background and the line-through. *)
Definition shown_isChecked (st : State) (key : Z) : option bool :=
  option_map isChecked
    (find (fun it => TodoItemProps.id (todo it) =? key) (items (TodoList st))).

(** ** Sample runs *)

Definition sample_db : list Todo :=
  [ {| id := 1; body := "write"; status := pending |};
    {| id := 2; body := "read"; status := completed |};
    {| id := 3; body := "walk"; status := pending |} ].

(** The first answer has arrived on the ['all'] tab. *)
Definition sample_all : State :=
  steps init [Answered (queryInput init) sample_db].

(** Then the ['pending'] tab was chosen and the backend answered again. *)
Definition sample_pending : State :=
  steps sample_all
    [ClickTab (status_tab pending);
     Answered {| statuses := [pending] |} sample_db].

(** On the ['all'] tab, the checkbox of todo 1 was clicked. *)
Definition sample_clicked : State :=
  steps sample_all [ClickCheckbox 1].

(** The identifier a mutation is about: [todoId], resp. [id]. *)
Definition mutation_id (m : Mutation) : Z :=
  match m with
  | todoStatus_update todoId _ => todoId
  | todo_delete id => id
  end.

(** Remote mutations settling one after the other, each with its outcome. *)
Definition settling (l : list (Mutation * bool)) : list Event :=
  map (fun p => Settled (fst p) (snd p)) l.

(** The store after somebody completed todo 1, and after todo 1 was
    deleted. *)
Definition sample_db_1_completed : list Todo :=
  [ {| id := 1; body := "write"; status := completed |};
    {| id := 2; body := "read"; status := completed |};
    {| id := 3; body := "walk"; status := pending |} ].

Definition sample_db_without_1 : list Todo :=
  [ {| id := 2; body := "read"; status := completed |};
    {| id := 3; body := "walk"; status := pending |} ].

(** * Properties *)

(** ** Equality tests and lookups *)

Lemma Status_eqb_eq (a b : Status) : Status_eqb a b = true <-> a = b.
Proof. destruct a, b; simpl; split; congruence. Qed.

Lemma Status_eqb_refl (a : Status) : Status_eqb a a = true.
Proof. now destruct a. Qed.

Lemma Tab_eqb_eq (a b : Tab) : Tab_eqb a b = true <-> a = b.
Proof.
  destruct a as [s|], b as [s'|]; simpl; try (split; congruence).
  rewrite Status_eqb_eq. split; congruence.
Qed.

Lemma statuses_eqb_eq (k k' : list Status) : statuses_eqb k k' = true <-> k = k'.
Proof.
  revert k'. induction k as [|s k IH]; intros [|s' k']; simpl;
    try (split; congruence).
  rewrite andb_true_iff, Status_eqb_eq, IH. split.
  - intros [-> ->]. reflexivity.
  - intros [= -> ->]. split; reflexivity.
Qed.

Lemma statuses_eqb_refl (k : list Status) : statuses_eqb k k = true.
Proof. now apply statuses_eqb_eq. Qed.

(** [find] by identifier misses exactly when no todo carries the
    identifier. *)
Lemma find_id_None (l : list Todo) (i : Z) :
  find (fun todo => id todo =? i) l = None <->
  forall todo, In todo l -> id todo <> i.
Proof.
  split.
  - intros H t Ht E.
    apply (find_none _ _ H) in Ht. simpl in Ht. lia.
  - intros H. induction l as [|t l IH]; simpl; [reflexivity|].
    destruct (Z.eqb_spec (id t) i) as [E|_].
    + exfalso. apply (H t); [now left | exact E].
    + apply IH. intros t' Ht'. apply H. now right.
Qed.

Lemma find_id_Some (l : list Todo) (i : Z) (t : Todo) :
  find (fun todo => id todo =? i) l = Some t -> In t l /\ id t = i.
Proof.
  intros H. apply find_some in H. simpl in H. destruct H as [H E].
  split; [exact H | lia].
Qed.

(** The string test of [TabsDemo] singles out the active tab: none of the
    three literals occurs inside another. *)
Lemma isActive_iff (activeTab type : Tab) :
  includes (Tab_name activeTab) (Tab_name type) = true <-> activeTab = type.
Proof.
  destruct activeTab as [[]|], type as [[]|]; split; intros H;
    try reflexivity; try discriminate H.
Qed.

(** ** The status sent by a toggle *)

Lemma toggled_eq (s : Status) :
  toggled s = match s with pending => completed | completed => pending end.
Proof. now destruct s. Qed.

(** C10.  The status mapping of [handleToggleTodoStatus] sends [completed]
    for a [pending] status and [pending] otherwise, and applying it twice to
    a status gives the status back. *)
Theorem toggled_involutive :
  (forall todos i,
      handleToggleTodoStatus todos i
      = [mutate (todoStatus_update i (toggled (currentStatus todos i)))]) /\
  toggled pending = completed /\
  toggled completed = pending /\
  (forall s, toggled (toggled s) = s).
Proof.
  repeat split. intros []; reflexivity.
Qed.

(** ** Toggling and deleting *)

Lemma run_handleUpdateStatus (render st : State) (i : Z) (s : Status) :
  run render (handleUpdateStatus i s) st
  = (st, [call_mutation (todoStatus_update i s)]).
Proof. reflexivity. Qed.

Lemma step_Settled_ok (st : State) (m : Mutation) :
  snd (step st (Settled m true)) = [call_getAll (queryInput st)].
Proof. destruct m; reflexivity. Qed.

Lemma currentStatus_present (l : list Todo) (i : Z) (s : Status) :
  (exists todo, In todo l /\ id todo = i) ->
  (forall todo, In todo l -> id todo = i -> status todo = s) ->
  currentStatus l i = s.
Proof.
  intros [t [Ht Ei]] Hs. unfold currentStatus.
  destruct (find (fun todo => id todo =? i) l) as [t'|] eqn:E.
  - apply find_id_Some in E. destruct E as [Ht' Ei']. now apply Hs.
  - rewrite find_id_None in E. now destruct (E t Ht).
Qed.

(** C1.  For an identifier carried by a todo of the fetched list, whose
    status there is [s], [handleToggleTodoStatus] sends the update-status
    call with the opposite status ([completed] for [pending], [pending] for
    [completed]) and changes no state; when that call succeeds, [getAll] is
    asked again, for the query input of the moment. *)
Theorem handleToggleTodoStatus_present (st : State) (i : Z) (s : Status) :
  (exists todo, In todo (todos st) /\ id todo = i) ->
  (forall todo, In todo (todos st) -> id todo = i -> status todo = s) ->
  let m := todoStatus_update i
             match s with pending => completed | completed => pending end in
  run st (handleToggleTodoStatus (todos st) i) st = (st, [call_mutation m]) /\
  forall st', snd (step st' (Settled m true)) = [call_getAll (queryInput st')].
Proof.
  intros Hin Hs m. split.
  - unfold handleToggleTodoStatus. rewrite run_handleUpdateStatus.
    rewrite (currentStatus_present _ _ s Hin Hs), toggled_eq. reflexivity.
  - intros st'. apply step_Settled_ok.
Qed.

Lemma handleToggleTodoStatus_present_witness :
  (exists todo, In todo (todos sample_all) /\ id todo = 2) /\
  (forall todo, In todo (todos sample_all) -> id todo = 2 ->
                status todo = completed) /\
  run sample_all (handleToggleTodoStatus (todos sample_all) 2) sample_all
  = (sample_all, [call_mutation (todoStatus_update 2 pending)]).
Proof.
  assert (H1 : exists todo, In todo (todos sample_all) /\ id todo = 2).
  { exists {| id := 2; body := "read"; status := completed |}.
    split; [right; left|]; reflexivity. }
  assert (H2 : forall todo, In todo (todos sample_all) -> id todo = 2 ->
                            status todo = completed).
  { intros t [<-|[<-|[<-|[]]]]; simpl; intros E;
      [discriminate E | reflexivity | discriminate E]. }
  split; [exact H1|]. split; [exact H2|].
  exact (proj1 (handleToggleTodoStatus_present sample_all 2 completed H1 H2)).
Defined.

(** C8.  For an identifier carried by no todo of the fetched list, the
    current status falls back to [pending], so [handleToggleTodoStatus] sends
    the update-status call with [completed] for that identifier. *)
Theorem handleToggleTodoStatus_absent (st : State) (i : Z) :
  (forall todo, In todo (todos st) -> id todo <> i) ->
  currentStatus (todos st) i = pending /\
  handleToggleTodoStatus (todos st) i
  = [updateStatus i completed] /\
  run st (handleToggleTodoStatus (todos st) i) st
  = (st, [call_mutation (todoStatus_update i completed)]).
Proof.
  intros H. apply find_id_None in H.
  assert (E : currentStatus (todos st) i = pending)
    by (unfold currentStatus; now rewrite H).
  unfold handleToggleTodoStatus. rewrite run_handleUpdateStatus, E.
  repeat split.
Qed.

Lemma handleToggleTodoStatus_absent_witness :
  (forall todo, In todo (todos sample_pending) -> id todo <> 2) /\
  run sample_pending (handleToggleTodoStatus (todos sample_pending) 2)
      sample_pending
  = (sample_pending, [call_mutation (todoStatus_update 2 completed)]).
Proof.
  assert (H : forall todo, In todo (todos sample_pending) -> id todo <> 2).
  { intros t [<-|[<-|[]]]; simpl; discriminate. }
  split; [exact H|].
  exact (proj2 (proj2 (handleToggleTodoStatus_absent sample_pending 2 H))).
Defined.

(** C4.  [handleDeleteTodo] sends the delete call with exactly the
    identifier it was given and changes no state; when that call succeeds,
    [getAll] is asked again. *)
Theorem handleDeleteTodo_calls (st : State) (i : Z) :
  handleDeleteTodo i = [mutate (todo_delete i)] /\
  run st (handleDeleteTodo i) st = (st, [call_mutation (todo_delete i)]) /\
  forall st',
    snd (step st' (Settled (todo_delete i) true))
    = [call_getAll (queryInput st')].
Proof.
  repeat split.
Qed.

(** ** Running handlers *)

Lemma step_fst (st : State) (e : Event) :
  fst (step st e)
  = rerender
      (fst (run st (dispatch st e)
                match e with
                | Answered input db => store input (getAll db input) st
                | _ => st
                end)).
Proof. unfold step. now destruct (run _ _ _). Qed.

Lemma step_snd (st : State) (e : Event) :
  snd (step st e)
  = snd (run st (dispatch st e)
             match e with
             | Answered input db => store input (getAll db input) st
             | _ => st
             end).
Proof. unfold step. now destruct (run _ _ _). Qed.

(** No call of the component writes the query cache. *)
Lemma exec_cache (render : State) (c : Cmd) (st : State) :
  cache (fst (exec render c st)) = cache st.
Proof. now destruct c. Qed.

Lemma run_cache (render : State) (cmds : list Cmd) (st : State) :
  cache (fst (run render cmds st)) = cache st.
Proof.
  revert st. induction cmds as [|c cmds IH]; intros st; simpl; [reflexivity|].
  destruct (exec render c st) as [st1 r1] eqn:E1.
  specialize (IH st1). destruct (run render cmds st1) as [st2 r2].
  simpl in *. rewrite IH. change st1 with (fst (st1, r1)). rewrite <- E1.
  apply exec_cache.
Qed.

Lemma find_map {A B : Type} (f : A -> B) (p : B -> bool) (l : list A) :
  find p (map f l) = option_map f (find (fun a => p (f a)) l).
Proof.
  induction l as [|a l IH]; simpl; [reflexivity|].
  now destruct (p (f a)).
Qed.

(** Every tab has its trigger, whose click handler is [handleClickTab] at
    that tab. *)
Lemma dispatch_ClickTab (st : State) (type : Tab) :
  dispatch st (ClickTab type) = handleClickTab type.
Proof. now destruct type as [[]|]. Qed.

Lemma dispatch_ClickCheckbox (st : State) (key : Z) (t : Todo) :
  find (fun todo => id todo =? key) (todos st) = Some t ->
  dispatch st (ClickCheckbox key)
  = handleCheckboxClick (handleToggleTodoStatus (todos st))
      match mounted st (id t) with
      | Some isChecked => isChecked
      | None => TodoItemProps.completed (formatTodo t)
      end
      (formatTodo t).
Proof.
  intros H. unfold dispatch, TodoList, items. rewrite find_map. simpl.
  now rewrite H.
Qed.

(** ** Reachable states *)

Lemma reachable_steps (es : list Event) (st : State) :
  reachable st -> reachable (steps st es).
Proof.
  revert st. induction es as [|e es IH]; intros st H; simpl; [exact H|].
  apply IH. now constructor.
Defined.

Lemma filter_invariant_init : filter_invariant init.
Proof.
  repeat split; simpl; try discriminate; auto.
Qed.

Lemma filter_invariant_handleClickTab (st : State) (type : Tab) :
  filter_invariant (fst (step st (ClickTab type))).
Proof.
  rewrite step_fst, dispatch_ClickTab.
  destruct type as [[]|]; repeat split; simpl;
    try discriminate; try (intros s; tauto);
    try (intros s [= <-]; reflexivity).
Qed.

Lemma filter_invariant_step (st : State) (e : Event) :
  filter_invariant st -> filter_invariant (fst (step st e)).
Proof.
  intros H. destruct e as [type|key|key|m ok|input db].
  - apply filter_invariant_handleClickTab.
  - rewrite step_fst. unfold dispatch.
    destruct (find _ (items (TodoList st))); exact H.
  - rewrite step_fst. unfold dispatch.
    destruct (find _ (items (TodoList st))); exact H.
  - rewrite step_fst. destruct m, ok; exact H.
  - rewrite step_fst. exact H.
Qed.

Lemma cache_invariant_step (st : State) (e : Event) :
  cache_invariant st -> cache_invariant (fst (step st e)).
Proof.
  intros H k data. rewrite step_fst.
  change (cache (rerender ?s)) with (cache s). rewrite run_cache.
  destruct e as [type|key|key|m ok|input db]; try apply H.
  simpl. destruct (statuses_eqb k (statuses input)) eqn:E; [|apply H].
  apply statuses_eqb_eq in E. intros [= <-]. exists db.
  subst k. now destruct input.
Qed.

Lemma cache_invariant_reachable (st : State) :
  reachable st -> cache_invariant st.
Proof.
  induction 1 as [|st e _ IH].
  - intros k data [=].
  - now apply cache_invariant_step.
Qed.

Lemma mounted_invariant_reachable (st : State) :
  reachable st -> mounted_invariant st.
Proof.
  intros [|st0 e _] key b.
  - intros [=].
  - rewrite step_fst.
    change (todos (rerender ?s)) with (todos s).
    change (mounted (rerender ?s) key)
      with (reconcile (mounted s) (todos s) key).
    unfold reconcile.
    destruct (find _ (todos _)) as [t|]; [now exists t | intros [=]].
Qed.

(** ** The filter tabs *)

(** C2.  [handleClickTab] makes two calls, the two state setters: the active
    tab becomes [type] and the status list, which is the query input, becomes
    [['completed', 'pending']] for ['all'] and [[type]] otherwise.  Clicking a
    tab sends no remote call and leaves the kept query answers as they
    are. *)
Theorem handleClickTab_sets (st : State) (type : Tab) :
  let l := match type with
           | all => [completed; pending]
           | status_tab s => [s]
           end in
  let st' := fst (step st (ClickTab type)) in
  handleClickTab type = [setActiveTab type; setListStatus l] /\
  run st (handleClickTab type) st
  = (with_listStatus l (with_activeTab type st), []) /\
  activeTab st' = type /\
  listStatus st' = l /\
  queryInput st' = {| statuses := l |} /\
  cache st' = cache st /\
  snd (step st (ClickTab type)) = [].
Proof.
  intros l st'. subst st'.
  rewrite step_fst, step_snd, dispatch_ClickTab.
  destruct type as [[]|]; repeat split.
Qed.

(** C9.  In every state the component can be in, the filter state is
    coherent, and it is again after any [handleClickTab] call: the status
    list is a non-empty list of statuses, equal to
    [['completed', 'pending']] exactly when the active tab is ['all'] and to
    the one-element list of the active tab otherwise. *)
Theorem filter_invariant_holds (st : State) :
  reachable st ->
  filter_invariant st /\
  forall type, filter_invariant (fst (step st (ClickTab type))).
Proof.
  intros H. split.
  - induction H as [|st e _ IH].
    + apply filter_invariant_init.
    + now apply filter_invariant_step.
  - apply filter_invariant_handleClickTab.
Qed.

Lemma filter_invariant_holds_witness :
  reachable sample_pending /\
  activeTab sample_pending = status_tab pending /\
  filter_invariant sample_pending.
Proof.
  assert (H : reachable sample_pending)
    by (apply reachable_steps, reachable_steps, reachable_init).
  split; [exact H|]. split; [reflexivity|].
  exact (proj1 (filter_invariant_holds sample_pending H)).
Defined.

(** ** The fetched list *)

Lemma existsb_Status_eqb (s : Status) (l : list Status) :
  existsb (Status_eqb s) l = true <-> In s l.
Proof.
  rewrite existsb_exists. split.
  - intros [s' [H E]]. apply Status_eqb_eq in E. now subst s'.
  - intros H. exists s. split; [exact H | apply Status_eqb_refl].
Qed.

Lemma getAll_In (db : list Todo) (input : GetAllInput) (t : Todo) :
  In t (getAll db input) <-> In t db /\ In (status t) (statuses input).
Proof.
  unfold getAll. rewrite filter_In, existsb_Status_eqb. reflexivity.
Qed.

Lemma getAll_statusesOfTab (db : list Todo) (type : Tab) :
  getAll db {| statuses := statusesOfTab type |}
  = filter (fun t => match type with
                     | all => true
                     | status_tab s => Status_eqb (status t) s
                     end) db.
Proof.
  unfold getAll. apply filter_ext. intros t.
  destruct type as [s|]; simpl.
  - apply orb_false_r.
  - now destruct (status t).
Qed.

(** The list shows one item per fetched todo, in the fetched order. *)
Lemma items_todos (st : State) :
  map todo (items (TodoList st)) = map formatTodo (todos st).
Proof. unfold TodoList, items. rewrite map_map. reflexivity. Qed.

(** Once the backend has answered the query of the current render, the
    fetched list is that answer. *)
Lemma todos_Answered (st : State) (db : list Todo) :
  todos (fst (step st (Answered (queryInput st) db)))
  = getAll db (queryInput st).
Proof.
  rewrite step_fst. unfold todos, rerender, store, queryInput. simpl.
  now rewrite statuses_eqb_refl.
Qed.

(** ** Refetching *)

Lemma step_getAll (st : State) (e : Event) :
  filter is_getAll (snd (step st e))
  = match e with
    | Settled _ true => [call_getAll (queryInput st)]
    | _ => []
    end.
Proof.
  rewrite step_snd. destruct e as [type|key|key|m ok|input db].
  - rewrite dispatch_ClickTab. reflexivity.
  - unfold dispatch. now destruct (find _ (items (TodoList st))).
  - unfold dispatch. now destruct (find _ (items (TodoList st))).
  - now destruct m, ok.
  - reflexivity.
Qed.

Lemma refetch_getAll_input (st : State) (e : Event) (input : GetAllInput) :
  In (call_getAll input) (snd (step st e)) -> input = queryInput st.
Proof.
  intros H.
  assert (H' : In (call_getAll input) (filter is_getAll (snd (step st e))))
    by (apply filter_In; now split).
  rewrite step_getAll in H'.
  destruct e as [type|key|key|m [|]|i db]; simpl in H';
    try contradiction.
  destruct H' as [[= <-]|[]]. reflexivity.
Qed.

(** A mutation that has succeeded leaves the state as it is. *)
Lemma step_Settled_ok_state (st : State) (m : Mutation) :
  fst (step st (Settled m true)) = rerender st.
Proof. rewrite step_fst. now destruct m. Qed.

(** Apart from an answer of the backend and a change of tab, no event
    changes the fetched list. *)
Lemma step_todos (st : State) (e : Event) :
  match e with
  | Answered _ _ | ClickTab _ => True
  | _ => todos (fst (step st e)) = todos st
  end.
Proof.
  destruct e as [type|key|key|m ok|input db]; try exact I;
    rewrite step_fst; unfold dispatch.
  - now destruct (find _ (items (TodoList st))).
  - now destruct (find _ (items (TodoList st))).
  - now destruct m, ok.
Qed.

(** C3.  Both mutation hooks are given one callback, [onSuccess], which
    calls [refetch] of the [getAll] query.  The component asks [getAll]
    again exactly when a mutation has succeeded, and the kept answers change
    only when the backend answers: no handler or callback writes them.  The
    fetched list is synchronized through that refetch and nothing else: a
    click on an item or a settling mutation leaves the fetched list as it
    is, and once the backend has answered the refetch the fetched list, and
    with it the shown items, is that answer. *)
Theorem refetch_on_mutation (st : State) (e : Event) :
  updateStatus_options = {| onSuccess := [refetchGetAll]; onError := [] |} /\
  deleteTodo_options = {| onSuccess := [refetchGetAll]; onError := [] |} /\
  filter is_getAll (snd (step st e))
  = match e with
    | Settled _ true => [call_getAll (queryInput st)]
    | _ => []
    end /\
  (cache (fst (step st e))
   = match e with
     | Answered input db => cache (store input (getAll db input) st)
     | _ => cache st
     end) /\
  match e with
  | Answered _ _ | ClickTab _ => True
  | _ => todos (fst (step st e)) = todos st
  end /\
  forall m db,
    let st1 := fst (step st (Settled m true)) in
    let st2 := fst (step st1 (Answered (queryInput st) db)) in
    snd (step st (Settled m true)) = [call_getAll (queryInput st)] /\
    todos st1 = todos st /\
    queryInput st1 = queryInput st /\
    todos st2 = getAll db (queryInput st) /\
    map todo (items (TodoList st2))
    = map formatTodo (getAll db (queryInput st)).
Proof.
  split; [reflexivity|]. split; [reflexivity|]. split; [|split; [|split]].
  - apply step_getAll.
  - rewrite step_fst. change (cache (rerender ?s)) with (cache s).
    rewrite run_cache. now destruct e.
  - apply step_todos.
  - intros m db st1 st2. subst st2 st1.
    rewrite step_Settled_ok_state.
    change (queryInput st) with (queryInput (rerender st)).
    rewrite items_todos, todos_Answered.
    repeat split. now destruct m.
Qed.

(** ** The fetched list along a run *)

Lemma steps_app (es es' : list Event) (st : State) :
  steps st (es ++ es') = steps (steps st es) es'.
Proof.
  revert st. induction es as [|e es IH]; intros st; simpl; [reflexivity|].
  apply IH.
Qed.

(** A reachable state is the end of a run of events from the first
    render. *)
Lemma reachable_trace (st : State) :
  reachable st -> exists es, st = steps init es.
Proof.
  induction 1 as [|st e _ [es IH]].
  - now exists [].
  - exists (es ++ [e]). rewrite steps_app, <- IH. reflexivity.
Qed.

(** The answer kept for an input is the backend's last answer for it. *)
Lemma cache_steps (es : list Event) (st : State) (k : list Status) :
  cache (steps st es) k
  = match last_answer es k with
    | Some db => Some (getAll db {| statuses := k |})
    | None => cache st k
    end.
Proof.
  revert st. induction es as [|e es IH]; intros st; simpl; [reflexivity|].
  rewrite IH. destruct (last_answer es k) as [db|]; [reflexivity|].
  rewrite step_fst. change (cache (rerender ?s)) with (cache s).
  rewrite run_cache.
  destruct e as [type|key|key|m ok|input db]; try reflexivity.
  simpl. destruct (statuses_eqb k (statuses input)) eqn:E; [|reflexivity].
  apply statuses_eqb_eq in E. subst k. now destruct input.
Qed.

Lemma todos_steps (es : list Event) :
  let st := steps init es in
  todos st
  = match last_answer es (listStatus st) with
    | Some db => getAll db (queryInput st)
    | None => []
    end.
Proof.
  intros st. unfold todos. subst st.
  change (statuses (queryInput ?s)) with (listStatus s).
  rewrite cache_steps. now destruct (last_answer es _).
Qed.

(** C5.  In every state the component can be in, the [getAll] query is
    given the current status list, also when it is asked again; the list
    shows one item per fetched todo; and the fetched list is empty while the
    backend has not answered for the current status list and is otherwise an
    answer of the backend for it: the stored todos whose status is in the
    status list.  The store is the one the backend held at its last answer
    for the current status list, and when the backend answers, holding
    [db], the shown todos are exactly the todos of [db] whose status is in
    the status list. *)
Theorem getAll_by_listStatus (st : State) :
  reachable st ->
  statuses (queryInput st) = listStatus st /\
  (forall e input,
      In (call_getAll input) (snd (step st e)) ->
      statuses input = listStatus st) /\
  map todo (items (TodoList st)) = map formatTodo (todos st) /\
  match cache st (listStatus st) with
  | None => todos st = []
  | Some data =>
      todos st = data /\
      exists db,
        data = filter (fun t => existsb (Status_eqb (status t))
                                        (listStatus st)) db /\
        forall t, In t (todos st) <-> In t db /\ In (status t) (listStatus st)
  end /\
  (exists es,
      st = steps init es /\
      todos st
      = match last_answer es (listStatus st) with
        | Some db => filter (fun t => existsb (Status_eqb (status t))
                                              (listStatus st)) db
        | None => []
        end) /\
  forall db,
    let st' := fst (step st (Answered (queryInput st) db)) in
    listStatus st' = listStatus st /\
    todos st'
    = filter (fun t => existsb (Status_eqb (status t)) (listStatus st)) db /\
    map todo (items (TodoList st'))
    = map formatTodo
        (filter (fun t => existsb (Status_eqb (status t)) (listStatus st))
                db) /\
    forall t, In t (todos st') <-> In t db /\ In (status t) (listStatus st).
Proof.
  intros Hr. split; [reflexivity|]. split; [|split; [|split; [|split]]].
  - intros e input Hin. now rewrite (refetch_getAll_input st e input Hin).
  - apply items_todos.
  - pose proof (cache_invariant_reachable st Hr (listStatus st)) as Hc.
    unfold todos. simpl. destruct (cache st (listStatus st)) as [data|].
    + split; [reflexivity|]. destruct (Hc data eq_refl) as [db E].
      exists db. split; [exact E|]. intros t. rewrite E. apply getAll_In.
    + reflexivity.
  - destruct (reachable_trace st Hr) as [es E]. exists es.
    split; [exact E|]. subst st. apply todos_steps.
  - intros db st'. subst st'.
    rewrite items_todos, todos_Answered.
    split; [now rewrite step_fst|]. split; [reflexivity|].
    split; [reflexivity|]. intros t. apply getAll_In.
Qed.

Lemma getAll_by_listStatus_witness :
  reachable sample_pending /\
  listStatus sample_pending = [pending] /\
  map TodoItemProps.id (map todo (items (TodoList sample_pending))) = [1; 3] /\
  map todo (items (TodoList sample_pending))
  = map formatTodo (todos sample_pending).
Proof.
  assert (H : reachable sample_pending)
    by (apply reachable_steps, reachable_steps, reachable_init).
  split; [exact H|]. split; [reflexivity|]. split; [reflexivity|].
  exact (proj1 (proj2 (proj2 (getAll_by_listStatus sample_pending H)))).
Defined.

(** ** The tab bar *)

(** C6, as first stated: the order all, pending, completed is not the order
    in which the triggers are rendered. *)
Lemma tabs_order_counterexample :
  map value (triggers (TodoList init))
  <> [all; status_tab pending; status_tab completed].
Proof. discriminate. Qed.

(** C6, amended.  The tab bar offers exactly the three choices all,
    completed, pending, rendered in that order, the active one marked.
    Clicking a choice selects the statuses to display: all asks for both
    statuses, a status asks for that status only, and once the backend has
    answered the list shows the stored todos whose status was chosen. *)
Theorem tabs_choices (st : State) (type : Tab) (db : list Todo) :
  let st1 := fst (step st (ClickTab type)) in
  let st2 := fst (step st1 (Answered (queryInput st1) db)) in
  map value (triggers (TodoList st))
  = [all; status_tab completed; status_tab pending] /\
  map label (triggers (TodoList st))
  = ["all"; "completed"; "pending"]%string /\
  map isActive (triggers (TodoList st))
  = map (Tab_eqb (activeTab st)) tabs /\
  map onClick (triggers (TodoList st)) = map handleClickTab tabs /\
  listStatus st1
  = match type with
    | all => [completed; pending]
    | status_tab s => [s]
    end /\
  map todo (items (TodoList st2))
  = map formatTodo
      (filter (fun t => match type with
                        | all => true
                        | status_tab s => Status_eqb (status t) s
                        end) db).
Proof.
  intros st1 st2. repeat split.
  - unfold TodoList, triggers. destruct (activeTab st) as [[]|]; reflexivity.
  - subst st1. rewrite step_fst, dispatch_ClickTab. reflexivity.
  - subst st2. rewrite items_todos, todos_Answered.
    rewrite <- getAll_statusesOfTab. f_equal. f_equal.
    subst st1. rewrite step_fst, dispatch_ClickTab. reflexivity.
Qed.

(** ** The checkbox *)

(** A mounted item is shown with its local state. *)
Lemma shown_mounted (st : State) (key : Z) (c : bool) :
  (exists t, find (fun todo => id todo =? key) (todos st) = Some t) ->
  mounted st key = Some c ->
  shown_isChecked st key = Some c.
Proof.
  intros [t Ht] Hm. unfold shown_isChecked, TodoList, items.
  rewrite find_map. simpl. rewrite Ht. simpl.
  apply find_id_Some in Ht. destruct Ht as [_ ->]. now rewrite Hm.
Qed.

(** C7.  Clicking the checkbox of a shown item whose local state is [b]
    first sets that state to [negb b] and then sends the update-status call.
    The item is shown with [negb b] right after the click, and still is when
    the call has settled, with success or not. *)
Theorem handleCheckboxClick_optimistic (st : State) (key : Z) (b : bool) :
  reachable st ->
  mounted st key = Some b ->
  let st1 := fst (step st (ClickCheckbox key)) in
  dispatch st (ClickCheckbox key)
  = setIsChecked key (negb b) :: handleToggleTodoStatus (todos st) key /\
  snd (step st (ClickCheckbox key))
  = [call_mutation
       (todoStatus_update key (toggled (currentStatus (todos st) key)))] /\
  shown_isChecked st1 key = Some (negb b) /\
  forall m ok,
    shown_isChecked (fst (step st1 (Settled m ok))) key = Some (negb b).
Proof.
  intros Hr Hm st1.
  destruct (mounted_invariant_reachable st Hr key b Hm) as [t Ht].
  assert (Ek : id t = key) by now apply find_id_Some in Ht.
  assert (D : dispatch st (ClickCheckbox key)
              = setIsChecked key (negb b)
                  :: handleToggleTodoStatus (todos st) key).
  { rewrite (dispatch_ClickCheckbox st key t Ht), Ek, Hm.
    unfold handleCheckboxClick. simpl. now rewrite Ek. }
  assert (M1 : mounted st1 key = Some (negb b)).
  { subst st1. rewrite step_fst, D. simpl.
    unfold reconcile. change (todos (with_mounted ?f st)) with (todos st).
    now rewrite Ht, Z.eqb_refl, Hm. }
  assert (T1 : todos st1 = todos st).
  { subst st1. rewrite step_fst, D. reflexivity. }
  split; [exact D|]. split; [now rewrite step_snd, D|]. split.
  - now apply shown_mounted; [rewrite T1; exists t|].
  - intros m ok.
    assert (T2 : todos (fst (step st1 (Settled m ok))) = todos st).
    { rewrite step_fst. rewrite <- T1. now destruct m, ok. }
    apply shown_mounted; [rewrite T2; now exists t|].
    rewrite step_fst.
    assert (E : fst (run st1 (dispatch st1 (Settled m ok)) st1) = st1)
      by now destruct m, ok.
    rewrite E. simpl. unfold reconcile. now rewrite T1, Ht, M1.
Qed.

Lemma handleCheckboxClick_optimistic_witness :
  reachable sample_all /\
  mounted sample_all 1 = Some false /\
  forall m ok,
    shown_isChecked
      (fst (step (fst (step sample_all (ClickCheckbox 1))) (Settled m ok))) 1
    = Some true.
Proof.
  assert (H : reachable sample_all)
    by (apply reachable_steps, reachable_init).
  split; [exact H|]. split; [reflexivity|].
  exact (proj2 (proj2 (proj2
           (handleCheckboxClick_optimistic sample_all 1 false H eq_refl)))).
Defined.

(** * Further properties of the component *)

(** ** What a step leaves alone *)

(** In a reachable state the mounted items are those of the fetched list:
    rendering again changes no local state. *)
Lemma mounted_reconciled (st : State) (key : Z) :
  reachable st -> reconcile (mounted st) (todos st) key = mounted st key.
Proof.
  intros [|st0 e _].
  - reflexivity.
  - rewrite step_fst.
    change (todos (rerender ?s)) with (todos s).
    change (mounted (rerender ?s)) with (reconcile (mounted s) (todos s)).
    unfold reconcile. now destruct (find _ (todos _)).
Qed.

(** The view is a function of the active tab, the fetched list and the local
    state of the items. *)
Lemma TodoList_ext (a b : State) :
  activeTab a = activeTab b ->
  todos a = todos b ->
  (forall key, mounted a key = mounted b key) ->
  TodoList a = TodoList b.
Proof.
  intros Ha Ht Hm. unfold TodoList. rewrite Ha, Ht. f_equal.
  apply map_ext. intros t. now rewrite Hm.
Qed.

Lemma shown_ext (a b : State) (key : Z) :
  todos a = todos b ->
  mounted a key = mounted b key ->
  shown_isChecked a key = shown_isChecked b key.
Proof.
  intros Ht Hm. unfold shown_isChecked, TodoList, items.
  rewrite !find_map, Ht. simpl.
  destruct (find _ (todos b)) as [t|] eqn:E; [|reflexivity].
  apply find_id_Some in E. destruct E as [_ E]. simpl. now rewrite E, Hm.
Qed.

(** A step whose handler sets no state leaves the whole state as it is. *)
Lemma step_idle (st : State) (e : Event) :
  reachable st ->
  fst (run st (dispatch st e) st) = st ->
  match e with Answered _ _ => False | _ => True end ->
  let st' := fst (step st e) in
  activeTab st' = activeTab st /\
  listStatus st' = listStatus st /\
  cache st' = cache st /\
  todos st' = todos st /\
  forall key, mounted st' key = mounted st key.
Proof.
  intros Hr E He st'. subst st'. rewrite step_fst.
  destruct e; try contradiction; rewrite E;
    (repeat split; intros k; now apply mounted_reconciled).
Qed.

Lemma step_Settled (st : State) (m : Mutation) (ok : bool) :
  reachable st ->
  let st' := fst (step st (Settled m ok)) in
  activeTab st' = activeTab st /\
  listStatus st' = listStatus st /\
  cache st' = cache st /\
  todos st' = todos st /\
  forall key, mounted st' key = mounted st key.
Proof.
  intros Hr. apply step_idle; [exact Hr| |exact I]. now destruct m, ok.
Qed.

Lemma step_ClickDelete (st : State) (key : Z) :
  reachable st ->
  let st' := fst (step st (ClickDelete key)) in
  activeTab st' = activeTab st /\
  listStatus st' = listStatus st /\
  cache st' = cache st /\
  todos st' = todos st /\
  forall key, mounted st' key = mounted st key.
Proof.
  intros Hr. apply step_idle; [exact Hr| |exact I].
  unfold dispatch. now destruct (find _ (items (TodoList st))).
Qed.

Lemma steps_settling (l : list (Mutation * bool)) (st : State) :
  reachable st ->
  let st' := steps st (settling l) in
  reachable st' /\
  todos st' = todos st /\
  forall key, mounted st' key = mounted st key.
Proof.
  revert st. induction l as [|[m ok] l IH]; intros st Hr; simpl.
  - repeat split. exact Hr.
  - destruct (step_Settled st m ok Hr) as (_ & _ & _ & Ht & Hm).
    destruct (IH (fst (step st (Settled m ok)))) as (Hr' & Ht' & Hm').
    { now constructor. }
    split; [exact Hr'|]. split; [now rewrite Ht'|].
    intros key. now rewrite Hm'.
Qed.

(** A click on the checkbox of a mounted item, in full: the call it sends,
    the state it sets, and what it leaves alone. *)
Lemma step_ClickCheckbox (st : State) (key : Z) (b : bool) :
  reachable st ->
  mounted st key = Some b ->
  let st1 := fst (step st (ClickCheckbox key)) in
  snd (step st (ClickCheckbox key))
  = [call_mutation
       (todoStatus_update key (toggled (currentStatus (todos st) key)))] /\
  activeTab st1 = activeTab st /\
  listStatus st1 = listStatus st /\
  cache st1 = cache st /\
  todos st1 = todos st /\
  mounted st1 key = Some (negb b) /\
  forall k, k <> key -> mounted st1 k = mounted st k.
Proof.
  intros Hr Hm st1.
  destruct (mounted_invariant_reachable st Hr key b Hm) as [t Ht].
  assert (Ek : id t = key) by now apply find_id_Some in Ht.
  assert (D : dispatch st (ClickCheckbox key)
              = setIsChecked key (negb b)
                  :: handleToggleTodoStatus (todos st) key).
  { rewrite (dispatch_ClickCheckbox st key t Ht), Ek, Hm.
    unfold handleCheckboxClick. simpl. now rewrite Ek. }
  split; [now rewrite step_snd, D|].
  subst st1. rewrite step_fst, D. simpl.
  change (todos (with_mounted ?f st)) with (todos st).
  repeat split.
  - unfold reconcile. now rewrite Ht, Z.eqb_refl, Hm.
  - intros k Hk. rewrite <- (mounted_reconciled st k Hr).
    unfold reconcile. destruct (Z.eqb_spec k key) as [E|_]; [contradiction|].
    reflexivity.
Qed.

(** An answer for the query of the current render becomes the fetched list,
    and the items are matched against it. *)
Lemma step_Answered (st : State) (db : list Todo) :
  let st' := fst (step st (Answered (queryInput st) db)) in
  queryInput st' = queryInput st /\
  todos st' = getAll db (queryInput st) /\
  forall key,
    mounted st' key = reconcile (mounted st) (getAll db (queryInput st)) key.
Proof.
  intros st'. subst st'. rewrite step_fst.
  unfold rerender, todos, store, queryInput. simpl.
  rewrite statuses_eqb_refl. repeat split.
Qed.

Lemma currentStatus_find (l : list Todo) (key : Z) (t : Todo) :
  find (fun todo => id todo =? key) l = Some t -> currentStatus l key = status t.
Proof. intros H. unfold currentStatus. now rewrite H. Qed.

Lemma includes_Tab_name (a type : Tab) :
  includes (Tab_name a) (Tab_name type) = Tab_eqb a type.
Proof. now destruct a as [[]|], type as [[]|]. Qed.

(** ** The tab bar marks one tab *)

Lemma TabsDemo_active (l : list Tab) (a : Tab) (h : Tab -> list Cmd) :
  map value (filter isActive (TabsDemo l a h)) = filter (Tab_eqb a) l.
Proof.
  induction l as [|type l IH]; simpl; [reflexivity|].
  rewrite includes_Tab_name. destruct (Tab_eqb a type); simpl;
    now rewrite <- IH.
Qed.

(** X1.  Whatever list of tabs [TabsDemo] is given, the triggers marked
    active by the substring test are exactly those of the active tab; in the
    component, exactly one trigger is marked, the one of the active tab. *)
Theorem TabsDemo_one_active
    (l : list Tab) (a : Tab) (h : Tab -> list Cmd) (st : State) :
  map value (filter isActive (TabsDemo l a h)) = filter (Tab_eqb a) l /\
  map value (filter isActive (triggers (TodoList st))) = [activeTab st].
Proof.
  split; [apply TabsDemo_active|].
  unfold TodoList, triggers. rewrite TabsDemo_active.
  now destruct (activeTab st) as [[]|].
Qed.

(** ** Which status a toggle sends *)

Lemma find_app_first (pre post : list Todo) (t : Todo) :
  (forall t', In t' pre -> id t' <> id t) ->
  find (fun todo => id todo =? id t) (pre ++ t :: post) = Some t.
Proof.
  intros H. induction pre as [|p pre IH]; simpl.
  - now rewrite Z.eqb_refl.
  - destruct (Z.eqb_spec (id p) (id t)) as [E|_].
    + exfalso. apply (H p); [now left | exact E].
    + apply IH. intros t' Ht'. apply H. now right.
Qed.

(** X9.  When several fetched todos carry the same identifier, the first
    one decides: [handleToggleTodoStatus] sends the opposite of the status
    of the first todo with that identifier, whatever comes after it. *)
Theorem handleToggleTodoStatus_first_match
    (pre post : list Todo) (t : Todo) :
  (forall t', In t' pre -> id t' <> id t) ->
  currentStatus (pre ++ t :: post) (id t) = status t /\
  handleToggleTodoStatus (pre ++ t :: post) (id t)
  = [updateStatus (id t) (toggled (status t))].
Proof.
  intros H. apply find_app_first with (post := post) in H.
  unfold handleToggleTodoStatus. rewrite (currentStatus_find _ _ _ H).
  split; reflexivity.
Qed.

Lemma handleToggleTodoStatus_first_match_witness :
  (forall t', In t' [ {| id := 5; body := "a"; status := pending |} ] ->
              id t' <> 7) /\
  handleToggleTodoStatus
    [ {| id := 5; body := "a"; status := pending |};
      {| id := 7; body := "b"; status := completed |};
      {| id := 7; body := "c"; status := pending |} ] 7
  = [updateStatus 7 pending].
Proof.
  assert (H : forall t', In t' [ {| id := 5; body := "a"; status := pending |} ]
                         -> id t' <> 7).
  { intros t' [<-|[]]. simpl. discriminate. }
  split; [exact H|].
  exact (proj2 (handleToggleTodoStatus_first_match
                  [ {| id := 5; body := "a"; status := pending |} ]
                  [ {| id := 7; body := "c"; status := pending |} ]
                  {| id := 7; body := "b"; status := completed |} H)).
Defined.

(** X10.  Every mutation the component sends comes from a click on an item
    that is shown and is about that item: an update carries the opposite of
    the fetched status of the first todo with that identifier, a delete
    carries its identifier.  The [?? 'pending'] fallback is never reached
    from the user interface, and callbacks send no mutation. *)
Theorem mutations_only_for_shown (st : State) (e : Event) (m : Mutation) :
  In (call_mutation m) (snd (step st e)) ->
  exists t,
    find (fun todo => id todo =? mutation_id m) (todos st) = Some t /\
    (e = ClickCheckbox (mutation_id m) /\
     m = todoStatus_update (id t) (toggled (status t)) \/
     e = ClickDelete (mutation_id m) /\ m = todo_delete (id t)).
Proof.
  rewrite step_snd. destruct e as [type|key|key|m' ok|input db].
  - rewrite dispatch_ClickTab. intros [].
  - destruct (find (fun todo => id todo =? key) (todos st)) as [t|] eqn:Ht.
    + rewrite (dispatch_ClickCheckbox st key t Ht).
      pose proof (currentStatus_find _ _ _ Ht) as Hs.
      apply find_id_Some in Ht as Hk. destruct Hk as [_ Hk].
      unfold handleCheckboxClick, handleToggleTodoStatus. simpl.
      rewrite Hk, Hs. intros [[= <-]|[]]. simpl.
      exists t. split; [exact Ht|]. left. now rewrite Hk.
    + unfold dispatch, TodoList, items. rewrite find_map. simpl.
      rewrite Ht. intros [].
  - unfold dispatch, TodoList, items. rewrite find_map. simpl.
    destruct (find (fun todo => id todo =? key) (todos st)) as [t|] eqn:Ht.
    + apply find_id_Some in Ht as Hk. destruct Hk as [_ Hk].
      simpl. intros [[= <-]|[]]. simpl. rewrite Hk.
      exists t. split; [exact Ht|]. right. now rewrite Hk.
    + intros [].
  - destruct m', ok; simpl; intros H; try contradiction;
      destruct H as [H|[]]; discriminate H.
  - intros [].
Qed.

Lemma mutations_only_for_shown_witness :
  In (call_mutation (todoStatus_update 2 pending))
     (snd (step sample_all (ClickCheckbox 2))) /\
  exists t,
    find (fun todo => id todo =? 2) (todos sample_all) = Some t /\
    status t = completed.
Proof.
  assert (H : In (call_mutation (todoStatus_update 2 pending))
                 (snd (step sample_all (ClickCheckbox 2))))
    by (left; reflexivity).
  split; [exact H|].
  destruct (mutations_only_for_shown sample_all _ _ H) as [t [Ht _]].
  exists t. split; [exact Ht|].
  simpl in Ht. injection Ht as <-. reflexivity.
Defined.

(** ** The checkbox and the fetched status *)

(** X2.  The status sent by a click is computed from the fetched list, the
    new checkbox state from the local state.  For a shown item whose local
    state is [b] and whose fetched status is that of [t], the status sent
    agrees with the checkbox state after the click exactly when the checkbox
    agreed with the fetched status before it. *)
Theorem checkbox_call_agrees_iff (st : State) (key : Z) (t : Todo) (b : bool) :
  reachable st ->
  find (fun todo => id todo =? key) (todos st) = Some t ->
  mounted st key = Some b ->
  exists s',
    snd (step st (ClickCheckbox key))
    = [call_mutation (todoStatus_update key s')] /\
    shown_isChecked (fst (step st (ClickCheckbox key))) key = Some (negb b) /\
    (Status_eqb s' completed = negb b <->
     b = Status_eqb (status t) completed).
Proof.
  intros Hr Ht Hm.
  destruct (step_ClickCheckbox st key b Hr Hm)
    as (Hreq & _ & _ & _ & Htodos & Hm1 & _).
  exists (toggled (status t)). split; [|split].
  - now rewrite Hreq, (currentStatus_find _ _ _ Ht).
  - apply shown_mounted; [|exact Hm1]. rewrite Htodos. now exists t.
  - destruct (status t), b; simpl; split; congruence.
Qed.

Lemma checkbox_call_agrees_iff_witness :
  reachable sample_all /\
  snd (step sample_all (ClickCheckbox 1))
  = [call_mutation (todoStatus_update 1 completed)] /\
  shown_isChecked (fst (step sample_all (ClickCheckbox 1))) 1 = Some true.
Proof.
  assert (H : reachable sample_all)
    by (apply reachable_steps, reachable_init).
  split; [exact H|].
  destruct (checkbox_call_agrees_iff sample_all 1
              {| id := 1; body := "write"; status := pending |} false
              H eq_refl eq_refl) as [s' [H1 [H2 H3]]].
  split; [reflexivity | exact H2].
Defined.

(** X3.  Clicking the same checkbox again before the list is fetched again
    sends the very same call a second time, while the checkbox is back in
    its first state: the second click does not send the opposite status.
    Mutations settling in between, with whatever outcome, change nothing to
    that. *)
Theorem double_click_same_call
    (st : State) (key : Z) (b : bool) (l : list (Mutation * bool)) :
  reachable st ->
  mounted st key = Some b ->
  let st1 := fst (step st (ClickCheckbox key)) in
  let st2 := steps st1 (settling l) in
  snd (step st2 (ClickCheckbox key)) = snd (step st (ClickCheckbox key)) /\
  shown_isChecked st2 key = Some (negb b) /\
  shown_isChecked (fst (step st2 (ClickCheckbox key))) key = Some b.
Proof.
  intros Hr Hm st1 st2.
  destruct (mounted_invariant_reachable st Hr key b Hm) as [t Ht].
  destruct (step_ClickCheckbox st key b Hr Hm)
    as (Hreq & _ & _ & _ & Ht1 & Hm1 & _).
  assert (Hr1 : reachable st1) by now constructor.
  destruct (steps_settling l st1 Hr1) as (Hr2 & Ht2 & Hm2).
  fold st2 in Hr2, Ht2, Hm2. fold st1 in Ht1, Hm1.
  assert (Hm2' : mounted st2 key = Some (negb b)) by now rewrite Hm2.
  destruct (step_ClickCheckbox st2 key (negb b) Hr2 Hm2')
    as (Hreq' & _ & _ & _ & Ht3 & Hm3 & _).
  split; [|split].
  - now rewrite Hreq', Hreq, Ht2, Ht1.
  - apply shown_mounted; [|exact Hm2']. rewrite Ht2, Ht1. now exists t.
  - apply shown_mounted.
    + rewrite Ht3, Ht2, Ht1. now exists t.
    + now rewrite Hm3, negb_involutive.
Qed.

Lemma double_click_same_call_witness :
  reachable sample_all /\
  mounted sample_all 1 = Some false /\
  snd (step sample_all (ClickCheckbox 1))
  = [call_mutation (todoStatus_update 1 completed)] /\
  snd (step (steps sample_clicked
               (settling [(todoStatus_update 1 completed, true)]))
            (ClickCheckbox 1))
  = snd (step sample_all (ClickCheckbox 1)).
Proof.
  assert (H : reachable sample_all)
    by (apply reachable_steps, reachable_init).
  split; [exact H|]. split; [reflexivity|]. split; [reflexivity|].
  exact (proj1 (double_click_same_call sample_all 1 false
                  [(todoStatus_update 1 completed, true)] H eq_refl)).
Defined.

(** X11.  A click on a checkbox touches nothing but that item's checked
    state: the tab bar, the query input, the kept answers, the list of shown
    todos and the checked state of every other item stay as they are. *)
Theorem checkbox_click_frame (st : State) (key : Z) (b : bool) :
  reachable st ->
  mounted st key = Some b ->
  let st1 := fst (step st (ClickCheckbox key)) in
  triggers (TodoList st1) = triggers (TodoList st) /\
  queryInput st1 = queryInput st /\
  cache st1 = cache st /\
  map todo (items (TodoList st1)) = map todo (items (TodoList st)) /\
  forall k, k <> key -> shown_isChecked st1 k = shown_isChecked st k.
Proof.
  intros Hr Hm st1.
  destruct (step_ClickCheckbox st key b Hr Hm)
    as (_ & Ha & Hl & Hc & Ht & _ & Hk).
  fold st1 in Ha, Hl, Hc, Ht, Hk. repeat split.
  - unfold TodoList, triggers. now rewrite Ha.
  - unfold queryInput. now rewrite Hl.
  - exact Hc.
  - now rewrite !items_todos, Ht.
  - intros k Hne. apply shown_ext; [exact Ht | now apply Hk].
Qed.

Lemma checkbox_click_frame_witness :
  reachable sample_all /\
  mounted sample_all 1 = Some false /\
  shown_isChecked (fst (step sample_all (ClickCheckbox 1))) 2
  = shown_isChecked sample_all 2.
Proof.
  assert (H : reachable sample_all)
    by (apply reachable_steps, reachable_init).
  split; [exact H|]. split; [reflexivity|].
  apply (proj2 (proj2 (proj2 (proj2
           (checkbox_click_frame sample_all 1 false H eq_refl))))).
  discriminate.
Defined.

(** ** Local state and fetched answers *)

(** How an item of a fresh answer is shown. *)
Lemma shown_Answered (st : State) (db : list Todo) (key : Z) (t : Todo) :
  find (fun todo => id todo =? key) (getAll db (queryInput st)) = Some t ->
  shown_isChecked (fst (step st (Answered (queryInput st) db))) key
  = Some match mounted st key with
         | Some c => c
         | None => Status_eqb (status t) completed
         end.
Proof.
  intros Ht. destruct (step_Answered st db) as (_ & Htodos & Hmounted).
  apply shown_mounted.
  - rewrite Htodos. now exists t.
  - rewrite Hmounted. unfold reconcile. now rewrite Ht.
Qed.

(** X4.  [useState(todo.completed)] reads the prop once: an item that is
    shown with local state [c] and is still in the next answer keeps [c],
    whatever status the answer gives it. *)
Theorem Answered_keeps_isChecked
    (st : State) (db : list Todo) (key : Z) (c : bool) (t : Todo) :
  mounted st key = Some c ->
  find (fun todo => id todo =? key) (getAll db (queryInput st)) = Some t ->
  shown_isChecked (fst (step st (Answered (queryInput st) db))) key = Some c.
Proof.
  intros Hm Ht. now rewrite (shown_Answered st db key t Ht), Hm.
Qed.

Lemma Answered_keeps_isChecked_witness :
  mounted sample_all 1 = Some false /\
  currentStatus (getAll sample_db_1_completed (queryInput sample_all)) 1
  = completed /\
  shown_isChecked
    (fst (step sample_all
               (Answered (queryInput sample_all) sample_db_1_completed))) 1
  = Some false.
Proof.
  split; [reflexivity|]. split; [reflexivity|].
  exact (Answered_keeps_isChecked sample_all sample_db_1_completed 1 false
           {| id := 1; body := "write"; status := completed |}
           eq_refl eq_refl).
Defined.

(** X5.  An item that was not shown and comes with an answer starts checked
    exactly when its fetched status is [completed]. *)
Theorem Answered_mounts_from_status
    (st : State) (db : list Todo) (key : Z) (t : Todo) :
  mounted st key = None ->
  find (fun todo => id todo =? key) (getAll db (queryInput st)) = Some t ->
  shown_isChecked (fst (step st (Answered (queryInput st) db))) key
  = Some (Status_eqb (status t) completed).
Proof.
  intros Hm Ht. now rewrite (shown_Answered st db key t Ht), Hm.
Qed.

Lemma Answered_mounts_from_status_witness :
  mounted init 2 = None /\
  shown_isChecked (fst (step init (Answered (queryInput init) sample_db))) 2
  = Some true.
Proof.
  split; [reflexivity|].
  exact (Answered_mounts_from_status init sample_db 2
           {| id := 2; body := "read"; status := completed |}
           eq_refl eq_refl).
Defined.

(** X6.  An item that drops out of the fetched list is no longer shown and
    its local state is forgotten: when a later answer brings the todo back,
    it is shown from its fetched status, not from the state it had. *)
Theorem leave_and_return_forgets
    (st : State) (db1 db2 : list Todo) (key : Z) (t : Todo) :
  find (fun todo => id todo =? key) (getAll db1 (queryInput st)) = None ->
  find (fun todo => id todo =? key) (getAll db2 (queryInput st)) = Some t ->
  let st1 := fst (step st (Answered (queryInput st) db1)) in
  let st2 := fst (step st1 (Answered (queryInput st1) db2)) in
  shown_isChecked st1 key = None /\
  shown_isChecked st2 key = Some (Status_eqb (status t) completed).
Proof.
  intros H1 H2 st1 st2.
  destruct (step_Answered st db1) as (Hq & Htodos & Hmounted).
  fold st1 in Hq, Htodos, Hmounted. split.
  - unfold shown_isChecked, TodoList, items. rewrite find_map. simpl.
    now rewrite Htodos, H1.
  - rewrite <- Hq in H2. subst st2.
    rewrite (shown_Answered st1 db2 key t H2), Hmounted.
    unfold reconcile. now rewrite H1.
Qed.

Lemma leave_and_return_forgets_witness :
  shown_isChecked sample_clicked 1 = Some true /\
  shown_isChecked
    (steps sample_clicked
       [Answered (queryInput sample_clicked) sample_db_without_1;
        Answered (queryInput sample_clicked) sample_db]) 1
  = Some false.
Proof.
  split; [reflexivity|].
  exact (proj2 (leave_and_return_forgets sample_clicked
                  sample_db_without_1 sample_db 1
                  {| id := 1; body := "write"; status := pending |}
                  eq_refl eq_refl)).
Defined.

(** ** Deleting and settling *)

(** X7.  A click on the delete button of a shown item sends the delete call
    with the identifier of that item and nothing else; the view stays as it
    is, the item included, until an answer without it arrives. *)
Theorem delete_click (st : State) (key : Z) (t : Todo) :
  reachable st ->
  find (fun todo => id todo =? key) (todos st) = Some t ->
  snd (step st (ClickDelete key)) = [call_mutation (todo_delete key)] /\
  TodoList (fst (step st (ClickDelete key))) = TodoList st /\
  queryInput (fst (step st (ClickDelete key))) = queryInput st /\
  In (formatTodo t)
     (map todo (items (TodoList (fst (step st (ClickDelete key)))))).
Proof.
  intros Hr Ht.
  destruct (step_ClickDelete st key Hr) as (Ha & Hl & _ & Htodos & Hm).
  assert (V : TodoList (fst (step st (ClickDelete key))) = TodoList st)
    by now apply TodoList_ext.
  split; [|split; [exact V|split]].
  - rewrite step_snd. unfold dispatch, TodoList, items.
    rewrite find_map. simpl. rewrite Ht. simpl.
    apply find_id_Some in Ht. destruct Ht as [_ ->]. reflexivity.
  - unfold queryInput. now rewrite Hl.
  - rewrite V, items_todos. apply in_map.
    now apply find_id_Some in Ht.
Qed.

Lemma delete_click_witness :
  reachable sample_all /\
  snd (step sample_all (ClickDelete 3)) = [call_mutation (todo_delete 3)] /\
  TodoList (fst (step sample_all (ClickDelete 3))) = TodoList sample_all.
Proof.
  assert (H : reachable sample_all)
    by (apply reachable_steps, reachable_init).
  split; [exact H|].
  destruct (delete_click sample_all 3
              {| id := 3; body := "walk"; status := pending |} H eq_refl)
    as (H1 & H2 & _).
  split; [exact H1 | exact H2].
Defined.

(** X8.  A mutation that settles changes nothing that is shown, whatever
    its outcome.  On failure nothing is sent either: no retry, no refetch
    and no rollback of the checkbox.  On success the only thing sent is the
    refetch, for the current query input. *)
Theorem Settled_view_unchanged (st : State) (m : Mutation) (ok : bool) :
  reachable st ->
  TodoList (fst (step st (Settled m ok))) = TodoList st /\
  queryInput (fst (step st (Settled m ok))) = queryInput st /\
  cache (fst (step st (Settled m ok))) = cache st /\
  snd (step st (Settled m ok))
  = if ok then [call_getAll (queryInput st)] else [].
Proof.
  intros Hr.
  destruct (step_Settled st m ok Hr) as (Ha & Hl & Hc & Htodos & Hm).
  repeat split.
  - now apply TodoList_ext.
  - unfold queryInput. now rewrite Hl.
  - exact Hc.
  - rewrite step_snd. now destruct m, ok.
Qed.

Lemma Settled_view_unchanged_witness :
  reachable sample_clicked /\
  shown_isChecked sample_clicked 1 = Some true /\
  TodoList (fst (step sample_clicked
                      (Settled (todoStatus_update 1 completed) false)))
  = TodoList sample_clicked /\
  snd (step sample_clicked (Settled (todoStatus_update 1 completed) false))
  = [].
Proof.
  assert (H : reachable sample_clicked)
    by (apply reachable_steps, reachable_steps, reachable_init).
  split; [exact H|]. split; [reflexivity|].
  destruct (Settled_view_unchanged sample_clicked
              (todoStatus_update 1 completed) false H) as (H1 & _ & _ & H2).
  split; [exact H1 | exact H2].
Defined.

(** ** Toggling on a status tab *)

Lemma filter_invariant_reachable (st : State) :
  reachable st -> filter_invariant st.
Proof.
  induction 1 as [|st e _ IH].
  - apply filter_invariant_init.
  - now apply filter_invariant_step.
Qed.

(** On a status tab every fetched todo has the status of the tab. *)
Lemma todos_status_tab (st : State) (s : Status) (t : Todo) :
  reachable st ->
  activeTab st = status_tab s ->
  In t (todos st) ->
  status t = s.
Proof.
  intros Hr Ha Hin.
  destruct (filter_invariant_reachable st Hr) as (_ & _ & _ & Hl).
  specialize (Hl s Ha).
  pose proof (cache_invariant_reachable st Hr (listStatus st)) as Hc.
  unfold todos in Hin. simpl in Hin.
  destruct (cache st (listStatus st)) as [data|]; [|contradiction].
  destruct (Hc data eq_refl) as [db E]. subst data.
  apply getAll_In in Hin. destruct Hin as [_ Hin]. simpl in Hin.
  rewrite Hl in Hin. destruct Hin as [E|[]]. now symmetry.
Qed.

Lemma requests_ClickCheckbox (st : State) (key : Z) :
  snd (step st (ClickCheckbox key))
  = match find (fun todo => id todo =? key) (todos st) with
    | Some t => [call_mutation (todoStatus_update key (toggled (status t)))]
    | None => []
    end.
Proof.
  rewrite step_snd.
  destruct (find (fun todo => id todo =? key) (todos st)) as [t|] eqn:Ht.
  - rewrite (dispatch_ClickCheckbox st key t Ht).
    pose proof (currentStatus_find _ _ _ Ht) as Hs.
    apply find_id_Some in Ht. destruct Ht as [_ Hk].
    unfold handleCheckboxClick, handleToggleTodoStatus. simpl.
    now rewrite Hk, Hs.
  - unfold dispatch, TodoList, items. rewrite find_map. simpl.
    now rewrite Ht.
Qed.

(** X12.  With a backend that filters by status, every item shown on the
    pending tab is pending and every item shown on the completed tab is
    completed, so a checkbox click on a status tab always sends the other
    status: [completed] on the pending tab, [pending] on the completed
    tab, whatever the checkbox shows. *)
Theorem status_tab_toggle (st : State) (s : Status) (key : Z) (t : Todo) :
  reachable st ->
  activeTab st = status_tab s ->
  find (fun todo => id todo =? key) (todos st) = Some t ->
  status t = s /\
  snd (step st (ClickCheckbox key))
  = [call_mutation
       (todoStatus_update key
          match s with pending => completed | completed => pending end)].
Proof.
  intros Hr Ha Ht.
  assert (Hs : status t = s).
  { apply (todos_status_tab st s t Hr Ha). now apply find_id_Some in Ht. }
  split; [exact Hs|].
  now rewrite requests_ClickCheckbox, Ht, Hs, toggled_eq.
Qed.

Lemma status_tab_toggle_witness :
  reachable sample_pending /\
  activeTab sample_pending = status_tab pending /\
  snd (step sample_pending (ClickCheckbox 3))
  = [call_mutation (todoStatus_update 3 completed)].
Proof.
  assert (H : reachable sample_pending)
    by (apply reachable_steps, reachable_steps, reachable_init).
  split; [exact H|]. split; [reflexivity|].
  exact (proj2 (status_tab_toggle sample_pending pending 3
                  {| id := 3; body := "walk"; status := pending |}
                  H eq_refl eq_refl)).
Defined.

